(** * FeelUOwn: the application shell ([feeluown/app.py])

    A shallow embedding of the [App] widget of FeelUOwn and the proofs of
    its behavioural contract.  The shell is glue code: every method either
    forwards a value to a collaborator (player, UI tree, request client, Qt
    application) or walks a list of paths.  The collaborators live outside
    [app.py]; the model records each call made on them as an event of a
    trace, and reads what they answer from an environment record. *)

From stdpp Require Import base list strings gmap pretty.
From Stdlib Require Import Ascii ZArith Floats.

Local Open Scope string_scope.
Local Open Scope Z_scope.
Local Open Scope list_scope.

(** ** Python strings and [posixpath] *)

Module PyStr.

(** [s.startswith(pre)] *)
Definition startswith (s pre : string) : bool := String.prefix pre s.

(** [s.endswith(suf)]: some tail of [s] is [suf]. *)
Fixpoint endswith (s suf : string) : bool :=
  if String.eqb s suf then true
  else match s with
       | EmptyString => false
       | String _ s' => endswith s' suf
       end.

(** [s.rfind(c)] for a one-character needle: the highest index holding
    [c], or [-1]. *)
Fixpoint rfind (c : Ascii.ascii) (s : string) : Z :=
  match s with
  | EmptyString => -1
  | String a s' =>
      let r := rfind c s' in
      if 0 <=? r then r + 1
      else if Ascii.eqb a c then 0 else -1
  end.

(** [s[i:]] and [s[:i]] for an index [0 <= i]. *)
Fixpoint slice_from (i : nat) (s : string) : string :=
  match i, s with
  | O, _ => s
  | S i', String _ s' => slice_from i' s'
  | S _, EmptyString => EmptyString
  end.

Fixpoint slice_to (i : nat) (s : string) : string :=
  match i, s with
  | O, _ => EmptyString
  | S i', String a s' => String a (slice_to i' s')
  | S _, EmptyString => EmptyString
  end.

(** [s.rsplit(c, 1)[0]]: what precedes the last [c]; all of [s] when
    there is none. *)
Definition rsplit1_head (c : Ascii.ascii) (s : string) : string :=
  let i := rfind c s in
  if 0 <=? i then slice_to (Z.to_nat i) s else s.

(** [s.rstrip(c)] *)
Fixpoint rstrip (c : Ascii.ascii) (s : string) : string :=
  match s with
  | EmptyString => EmptyString
  | String a s' =>
      match rstrip c s' with
      | EmptyString => if Ascii.eqb a c then EmptyString else String a EmptyString
      | t => String a t
      end
  end.

End PyStr.

Module PosixPath.
Import PyStr.

Definition sep : Ascii.ascii := "/"%char.

(** [os.path.join(a, b)] *)
Definition join (a b : string) : string :=
  if startswith b "/" then b
  else if String.eqb a "" || endswith a "/" then a +:+ b
  else a +:+ "/" +:+ b.

(** [os.path.basename(p)]: [i = p.rfind('/') + 1; return p[i:]] *)
Definition basename (p : string) : string :=
  let i := rfind sep p + 1 in
  slice_from (Z.to_nat i) p.

(** [os.path.dirname(p)]: the head up to the last slash, without its
    trailing slashes unless it consists of slashes only. *)
Definition dirname (p : string) : string :=
  let i := rfind sep p + 1 in
  let head := slice_to (Z.to_nat i) p in
  match rstrip sep head with
  | EmptyString => head
  | stripped => stripped
  end.

End PosixPath.

(** ** Exceptions, outcomes and the effect monad *)

(** A raised Python exception, by the one distinction the source makes:
    [except Exception] catches the instances of [Exception] and lets the
    other [BaseException]s ([KeyboardInterrupt], [SystemExit],
    [GeneratorExit]) through. *)
Inductive PyExc : Type :=
| ExceptionInstance (cls : string)
| BaseExceptionOnly (cls : string).

Definition isinstance_Exception (e : PyExc) : bool :=
  match e with
  | ExceptionInstance _ => true
  | BaseExceptionOnly _ => false
  end.

Inductive Outcome (A : Type) : Type :=
| Returns (a : A)
| Raises (e : PyExc).
Arguments Returns {A} a.
Arguments Raises {A} e.

(** A Python number as [set_progress] receives it: an [int], or a
    [float], which is an IEEE 754 binary64 value as Rocq's primitive
    floats are. *)
Inductive PyNumber : Type :=
| PyInt (n : Z)
| PyFloat (x : float).

(** [int(x)] for a float: the integer part, cut towards zero;
    [ValueError] for NaN and [OverflowError] for an infinity. *)
Definition int_of_float (x : float) : Outcome Z :=
  match Prim2SF x with
  | S754_zero _ => Returns 0
  | S754_infinity _ => Raises (ExceptionInstance "OverflowError")
  | S754_nan => Raises (ExceptionInstance "ValueError")
  | S754_finite s m e =>
      let magnitude := Z.shiftl (Zpos m) e in
      Returns (if s then - magnitude else magnitude)
  end.

(** Qt's two standard icons of the play/pause button. *)
Inductive StandardIcon : Type := SP_MediaPause | SP_MediaPlay.

(** [QPixmap(img)] after [img.loadFromData(content)]: null when the bytes
    do not decode, otherwise the decoded raster. *)
Inductive QPixmap : Type :=
| NullPixmap
| Pixmap (raster : list Byte.byte).

Definition isNull (p : QPixmap) : bool :=
  match p with NullPixmap => true | Pixmap _ => false end.

(** Every call the shell makes on a collaborator. *)
Inductive Event : Type :=
| LogDebug (msg : string)
| InitializedEmit
| FileRead (path : string)
| SetStyleSheet (qss : string)
| ShowMsg (text : string) (timeout : option Z)
| OnPositionChanged (v : Z)
| SliderUpdateState (v : Z)
| OnDurationChanged (v : Z)
| SliderSetDuration (v : Z)
| SetIcon (icon : StandardIcon)
| RequestGet (url : string) (data : list (string * string))
| CallbackCall (callback : string) (pixmap : QPixmap)
| PlayerStop
| PlayerShutdown
| AppQuit.

(** The attributes of the [App] object that its methods could assign, and
    the trace of calls made so far. *)
Record World : Type := mkWorld {
  trace : list Event;
  player_volume : Z;
  player_pixmap : option QPixmap
}.

(** The world after the calls [evs]: the trace grows, the attributes stay. *)
Definition extend (w : World) (evs : list Event) : World :=
  mkWorld (trace w ++ evs) (player_volume w) (player_pixmap w).

(** A computation over a state [S] that returns or raises. *)
Definition ST (S A : Type) : Type := S -> Outcome A * S.

Definition ret {S A} (a : A) : ST S A := fun w => (Returns a, w).

Definition raise {S A} (e : PyExc) : ST S A := fun w => (Raises e, w).

Definition bind {S A B} (c : ST S A) (k : A -> ST S B) : ST S B :=
  fun w =>
    match c w with
    | (Returns a, w') => k a w'
    | (Raises e, w') => (Raises e, w')
    end.

Notation "x <- c ;; k" := (bind c (fun x => k))
  (at level 100, c at next level, right associativity).
Notation "c ;; k" := (bind c (fun _ => k))
  (at level 100, right associativity).

(** A pure step that returns or raises. *)
Definition lift_outcome {S A} (o : Outcome A) : ST S A := fun w => (o, w).

(** [for x in l: body(x)] *)
Fixpoint for_each {S A} (l : list A) (body : A -> ST S unit) : ST S unit :=
  match l with
  | [] => ret tt
  | x :: l' => body x ;; for_each l' body
  end.

(** [try: c  except Exception: handler  else: orelse].  The handler sees
    the instances of [Exception] only; what [orelse] raises is not
    handled. *)
Definition try_except_else {S A B} (c : ST S A) (handler : PyExc -> ST S B)
    (orelse : A -> ST S B) : ST S B :=
  fun w =>
    match c w with
    | (Returns a, w') => orelse a w'
    | (Raises e, w') =>
        if isinstance_Exception e then handler e w' else (Raises e, w')
    end.

(** The methods of [App] run over the [World]. *)
Definition M (A : Type) : Type := ST World A.

Definition emit (ev : Event) : M unit := fun w => (Returns tt, extend w [ev]).

(** ** What the collaborators answer *)

Record FileSystem : Type := {
  os_path_exists : string -> bool;
  os_path_isdir : string -> bool;
  os_path_isfile : string -> bool;
  os_listdir : string -> list string;
  (* open(path).read(): the text, or what opening or reading raises *)
  file_content : string -> Outcome string
}.

Record Env : Type := {
  use_mac_theme : bool;                      (* helpers.use_mac_theme() *)
  module_abspath : string;                   (* os.path.abspath(__file__) *)
  config_FUO_FILES : list string;            (* config.FUO_FILES *)
  fs : FileSystem;
  widget_width : Z;                          (* self.width() *)
  request_get : string -> list (string * string) -> option (list Byte.byte);
  loadFromData : list Byte.byte -> QPixmap;
  player_stop_raises : option PyExc;         (* what player.stop() raises *)
  player_shutdown_raises : option PyExc      (* what player.shutdown() raises *)
}.

(** ** The methods of [App] *)

(** The handle [create_action] yields. *)
Record Action : Type := {
  set_progress : PyNumber -> M unit;
  failed : M unit
}.

(** The event object Qt hands to [closeEvent]; the method does not look
    at it. *)
Record QCloseEvent : Type := { spontaneous : bool }.

Section App.
Variable env : Env.

(** [self.ui.magicbox.show_msg(text, timeout=...)]; [None] stands for
    the default timeout of the magic box. *)
Definition show_msg (text : string) (timeout : option Z) : M unit :=
  emit (ShowMsg text timeout).

Definition load_qss : M unit :=
  if negb (use_mac_theme env) then ret tt
  else
    let filepath := module_abspath env in
    let dirname := PosixPath.dirname filepath in
    let qssfilepath := PosixPath.join dirname "mac.qss" in
    emit (FileRead qssfilepath) ;;
    s <- lift_outcome (file_content (fs env) qssfilepath) ;;
    emit (SetStyleSheet s).

Definition initialize : M unit :=
  emit (LogDebug "App start initializing...") ;;
  emit InitializedEmit ;;
  load_qss ;;
  emit (LogDebug "App start initializing...done").

(** The first loop of [scan_fuo_files]: the value of [f_list] when it
    ends. *)
Definition scan_f_list (fuo_files : list string) : list string :=
  fold_left
    (fun f_list filepath =>
       if negb (os_path_exists (fs env) filepath) then f_list
       else if os_path_isdir (fs env) filepath then
         fold_left
           (fun f_list fname =>
              let fpath := PosixPath.join filepath fname in
              if os_path_isfile (fs env) fpath then f_list ++ [fpath]
              else f_list)
           (os_listdir (fs env) filepath) f_list
       else f_list ++ [filepath])
    fuo_files [].

(** [scan_fuo_files] with the program point after [name = ...] left
    open: [visit fpath name] runs there.  The source has nothing at that
    point. *)
Definition scan_fuo_files_with {S} (visit : string -> string -> ST S unit)
    : ST S unit :=
  let fuo_files := config_FUO_FILES env in
  let f_list := scan_f_list fuo_files in
  for_each f_list
    (fun fpath =>
       let basename := PosixPath.basename fpath in
       if negb (PyStr.endswith basename ".fuo") then ret tt
       else
         let name := PyStr.rsplit1_head "." basename in
         visit fpath name).

Definition scan_fuo_files : M unit :=
  scan_fuo_files_with (fun _ _ => ret tt).

(** The entries for which the second loop reaches [name = ...], with the
    name derived there, in order. *)
Definition scan_recognized : list (string * string) :=
  snd (scan_fuo_files_with
         (fun fpath name acc => (Returns tt, acc ++ [(fpath, name)])) []).

(** [int(value * 100)]: exact on an [int]; on a [float] the product is
    rounded as binary64 and then cut towards zero, and NaN or an
    infinity makes [int] raise. *)
Definition percent (value : PyNumber) : Outcome Z :=
  match value with
  | PyInt n => Returns (n * 100)
  | PyFloat x => int_of_float (x * 100)%float
  end.

Definition create_action_handle (s : string) : Action := {|
  set_progress := fun value =>
    value <- lift_outcome (percent value) ;;
    show_msg (s +:+ "..." +:+ pretty value +:+ "%") (Some (-1));
  failed := show_msg (s +:+ "...failed") (Some (-1))
|}.

(** [with self.create_action(s) as action: block(action)] *)
Definition create_action (s : string) (block : Action -> M unit) : M unit :=
  show_msg (s +:+ "...") (Some (-1)) ;;
  try_except_else (block (create_action_handle s))
    (fun e => show_msg (s +:+ "...error") None ;; raise e)
    (fun _ => show_msg (s +:+ "...done") None).

(** The two handlers below take the value the player signals as an
    integer. *)
Definition _on_player_position_changed (ms : Z) : M unit :=
  emit (OnPositionChanged (ms * 1000)) ;;
  emit (SliderUpdateState (ms * 1000)).

Definition _on_player_duration_changed (ms : Z) : M unit :=
  emit (OnDurationChanged (ms * 1000)) ;;
  emit (SliderSetDuration (ms * 1000)).

(** [PlayerState] comes from [fuocore]; the handler only compares the
    state with [PlayerState.playing]. *)
Definition _on_player_status_changed {PlayerState : Type}
    `{EqDecision PlayerState} (playing state : PlayerState) : M unit :=
  if use_mac_theme env then ret tt
  else if decide (state = playing) then emit (SetIcon SP_MediaPause)
  else emit (SetIcon SP_MediaPlay).

Definition _on_network_slow : M unit := ret tt.
Definition _on_network_connected : M unit := ret tt.
Definition _on_network_server_error : M unit := ret tt.
Definition _on_network_disconnected : M unit := ret tt.

Definition change_volume (value : Z) : M unit :=
  fun w => (Returns tt, mkWorld (trace w) value (player_pixmap w)).

(** ['{0}y{0}'.format(self.width())] under the key ['param']. *)
Definition size_param : list (string * string) :=
  [("param", pretty (widget_width env) +:+ "y" +:+ pretty (widget_width env))].

Definition request_get_call (url : string) (data : list (string * string))
    : M (option (list Byte.byte)) :=
  emit (RequestGet url data) ;; ret (request_get env url data).

Definition pixmap_from_url (url : string) (callback : option string)
    : M (option QPixmap) :=
  let data := size_param in
  res <- request_get_call url data ;;
  match res with
  | None => ret None
  | Some content =>
      let pixmap := loadFromData env content in
      if isNull pixmap then ret None
      else
        match callback with
        | Some cb => emit (CallbackCall cb pixmap)
        | None => ret tt
        end ;;
        ret (Some pixmap)
  end.

Definition player_stop : M unit :=
  emit PlayerStop ;;
  match player_stop_raises env with
  | None => ret tt
  | Some e => raise e
  end.

Definition player_shutdown : M unit :=
  emit PlayerShutdown ;;
  match player_shutdown_raises env with
  | None => ret tt
  | Some e => raise e
  end.

Definition closeEvent (event : QCloseEvent) : M unit :=
  try_except_else (player_stop ;; player_shutdown)
    (fun e => ret tt)
    (fun _ => ret tt) ;;
  emit AppQuit.

End App.

(** The callback invocations among a run's events. *)
Definition callback_calls (evs : list Event) : list (string * QPixmap) :=
  omap (fun ev => match ev with
                  | CallbackCall cb px => Some (cb, px)
                  | _ => None
                  end) evs.

(** The stylesheets a run's events install. *)
Definition stylesheet_writes (evs : list Event) : list string :=
  omap (fun ev => match ev with
                  | SetStyleSheet qss => Some qss
                  | _ => None
                  end) evs.

(** Whatever [stop] raises, and [shutdown] when it gets to run, is an
    instance of [Exception]. *)
Definition teardown_raises_Exception_only (env : Env) : Prop :=
  match player_stop_raises env with
  | Some e => isinstance_Exception e = true
  | None =>
      match player_shutdown_raises env with
      | Some e => isinstance_Exception e = true
      | None => True
      end
  end.

(** Modelled from the spec: [fuocore.core.player.State] is not part of
    [app.py]; the spec gives the player's state as playing or other. *)
Inductive PlayerState : Type := playing | other.

#[global] Instance PlayerState_eq_dec : EqDecision PlayerState.
Proof. solve_decision. Defined.

(** ** Concrete inputs *)

Module Sample.

Definition mem (p : string) (l : list string) : bool := bool_decide (p ∈ l).

(** A tree holding [/a/b.fuo], [/dir/c.fuo], [/dir/d.txt] and the
    stylesheet next to the module. *)
Definition tree : FileSystem := {|
  os_path_exists p :=
    mem p ["/"; "/a"; "/a/b.fuo"; "/dir"; "/dir/c.fuo"; "/dir/d.txt";
           "/opt"; "/opt/feeluown"; "/opt/feeluown/app.py";
           "/opt/feeluown/mac.qss"];
  os_path_isdir p := mem p ["/"; "/a"; "/dir"; "/opt"; "/opt/feeluown"];
  os_path_isfile p :=
    mem p ["/a/b.fuo"; "/dir/c.fuo"; "/dir/d.txt"; "/opt/feeluown/app.py";
           "/opt/feeluown/mac.qss"];
  os_listdir p :=
    if String.eqb p "/dir" then ["d.txt"; "c.fuo"]
    else if String.eqb p "/a" then ["b.fuo"]
    else if String.eqb p "/opt/feeluown" then ["app.py"; "mac.qss"]
    else if String.eqb p "/opt" then ["feeluown"]
    else if String.eqb p "/" then ["a"; "dir"; "opt"]
    else [];
  file_content p :=
    if String.eqb p "/opt/feeluown/mac.qss"
    then Returns "QWidget { color: white; }"
    else Raises (ExceptionInstance "FileNotFoundError")
|}.

Definition png : list Byte.byte := [Byte.x89; Byte.x50; Byte.x4e; Byte.x47].

(** A request client that serves two urls, one with bytes that decode. *)
Definition get (url : string) (data : list (string * string))
    : option (list Byte.byte) :=
  if String.eqb url "http://img/cover.png" then Some png
  else if String.eqb url "http://img/broken" then Some []
  else None.

Definition decode (content : list Byte.byte) : QPixmap :=
  match content with
  | [] => NullPixmap
  | _ => Pixmap content
  end.

Definition env (mac : bool) (stop shutdown : option PyExc) : Env := {|
  use_mac_theme := mac;
  module_abspath := "/opt/feeluown/app.py";
  config_FUO_FILES := ["/a/b.fuo"; "/missing"; "/dir"];
  fs := tree;
  widget_width := 1000;
  request_get := get;
  loadFromData := decode;
  player_stop_raises := stop;
  player_shutdown_raises := shutdown
|}.

Definition quiet : Env := env false None None.
Definition mac : Env := env true None None.
Definition stop_fails : Env :=
  env false (Some (ExceptionInstance "RuntimeError")) None.
Definition shutdown_fails : Env :=
  env false None (Some (ExceptionInstance "RuntimeError")).

Definition w0 : World := mkWorld [] 50 None.

Definition close : QCloseEvent := {| spontaneous := true |}.

Definition interrupted (a : Action) : M unit :=
  raise (BaseExceptionOnly "KeyboardInterrupt").

Definition broken (a : Action) : M unit :=
  set_progress a (PyFloat 0.5) ;; raise (ExceptionInstance "ValueError").

Definition halfway (a : Action) : M unit := set_progress a (PyFloat 0.5).

(** The mac theme with the module installed where no [mac.qss] lies. *)
Definition mac_without_qss : Env := {|
  use_mac_theme := true;
  module_abspath := "/a/app.py";
  config_FUO_FILES := [];
  fs := tree;
  widget_width := 1000;
  request_get := get;
  loadFromData := decode;
  player_stop_raises := None;
  player_shutdown_raises := None
|}.

End Sample.

(** The configuration and tree of the contract's example: [/a/b.fuo] is
    an existing file, [/missing] does not exist, [/dir] is a directory
    that lists the regular files [c.fuo] and [d.txt], in any order. *)
Definition example_tree (env : Env) : Prop :=
  config_FUO_FILES env = ["/a/b.fuo"; "/missing"; "/dir"] /\
  os_path_exists (fs env) "/a/b.fuo" = true /\
  os_path_isdir (fs env) "/a/b.fuo" = false /\
  os_path_exists (fs env) "/missing" = false /\
  os_path_exists (fs env) "/dir" = true /\
  os_path_isdir (fs env) "/dir" = true /\
  os_listdir (fs env) "/dir" ≡ₚ ["c.fuo"; "d.txt"] /\
  os_path_isfile (fs env) "/dir/c.fuo" = true /\
  os_path_isfile (fs env) "/dir/d.txt" = true.

(** [fpath] is what the first loop appends for the configured entry
    [filepath]: the entry itself when it exists and is no directory, or a
    regular file listed directly in it when it is one. *)
Definition expands_to (env : Env) (filepath fpath : string) : Prop :=
  os_path_exists (fs env) filepath = true /\
  (os_path_isdir (fs env) filepath = false /\ fpath = filepath \/
   os_path_isdir (fs env) filepath = true /\
   exists fname,
     fname ∈ os_listdir (fs env) filepath /\
     fpath = PosixPath.join filepath fname /\
     os_path_isfile (fs env) fpath = true).

(** ** The two sentences of the contract that the code does not meet *)

(** Closing the window invokes stop, then shutdown, then quit, whatever
    the player raises. *)
Definition closeEvent_always_stop_shutdown_quit (env : Env)
    (event : QCloseEvent) (w : World) : Prop :=
  exists out evs pre mid post,
    closeEvent env event w = (out, extend w evs) /\
    evs = pre ++ PlayerStop :: mid ++ PlayerShutdown :: post ++ [AppQuit].

(** Whatever the block raises, an error message is shown and the same
    exception reaches the caller. *)
Definition create_action_reports_any_raise (s : string)
    (block : Action -> M unit) (w : World) : Prop :=
  forall e w2,
    block (create_action_handle s)
      (extend w [ShowMsg (s +:+ "...") (Some (-1))]) = (Raises e, w2) ->
    exists w' timeout,
      create_action s block w = (Raises e, w') /\
      ShowMsg (s +:+ "...error") timeout ∈ trace w'.

(** ** Clients of the shell *)

(** One call on the handle of [create_action]. *)
Inductive HandleCall : Type :=
| CallSetProgress (value : PyNumber)
| CallFailed.

Definition call_handle (action : Action) (c : HandleCall) : M unit :=
  match c with
  | CallSetProgress value => set_progress action value
  | CallFailed => failed action
  end.

(** The message a call on the handle of [create_action(s)] shows, or
    what the call raises. *)
Definition handle_message (s : string) (c : HandleCall) : Outcome Event :=
  match c with
  | CallSetProgress value =>
      match percent value with
      | Returns n =>
          Returns (ShowMsg (s +:+ "..." +:+ pretty n +:+ "%") (Some (-1)))
      | Raises e => Raises e
      end
  | CallFailed => Returns (ShowMsg (s +:+ "...failed") (Some (-1)))
  end.

(** The environment with [config.FUO_FILES] set to [fuo_files]. *)
Definition with_FUO_FILES (env : Env) (fuo_files : list string) : Env := {|
  use_mac_theme := use_mac_theme env;
  module_abspath := module_abspath env;
  config_FUO_FILES := fuo_files;
  fs := fs env;
  widget_width := widget_width env;
  request_get := request_get env;
  loadFromData := loadFromData env;
  player_stop_raises := player_stop_raises env;
  player_shutdown_raises := player_shutdown_raises env
|}.

(** ** Strings and paths on examples *)

Example basename_file : PosixPath.basename "/dir/c.fuo" = "c.fuo".
Proof. reflexivity. Qed.
Example basename_bare : PosixPath.basename "c.fuo" = "c.fuo".
Proof. reflexivity. Qed.
Example basename_trailing : PosixPath.basename "/dir/" = "".
Proof. reflexivity. Qed.
Example dirname_file : PosixPath.dirname "/opt/feeluown/app.py" = "/opt/feeluown".
Proof. reflexivity. Qed.
Example dirname_root : PosixPath.dirname "/app.py" = "/".
Proof. reflexivity. Qed.
Example dirname_bare : PosixPath.dirname "app.py" = "".
Proof. reflexivity. Qed.
Example join_plain : PosixPath.join "/dir" "c.fuo" = "/dir/c.fuo".
Proof. reflexivity. Qed.
Example join_slash : PosixPath.join "/dir/" "c.fuo" = "/dir/c.fuo".
Proof. reflexivity. Qed.
Example join_abs : PosixPath.join "/dir" "/c.fuo" = "/c.fuo".
Proof. reflexivity. Qed.
Example rsplit_ext : PyStr.rsplit1_head "." "a.b.fuo" = "a.b".
Proof. reflexivity. Qed.
Example endswith_yes : PyStr.endswith "c.fuo" ".fuo" = true.
Proof. reflexivity. Qed.
Example endswith_no : PyStr.endswith "d.txt" ".fuo" = false.
Proof. reflexivity. Qed.
Example endswith_short : PyStr.endswith "fuo" ".fuo" = false.
Proof. reflexivity. Qed.

Lemma endswith_unfold s suf :
  PyStr.endswith s suf =
    if String.eqb s suf then true
    else match s with
         | EmptyString => false
         | String _ s' => PyStr.endswith s' suf
         end.
Proof. by destruct s. Qed.

(** [endswith] holds exactly of the strings that are something followed
    by the suffix. *)
Lemma endswith_spec s suf :
  PyStr.endswith s suf = true <-> exists pre, s = pre +:+ suf.
Proof.
  split.
  - induction s as [|a s IH]; rewrite endswith_unfold.
    + destruct (String.eqb_spec "" suf) as [<-|_]; [|done].
      intros _. by exists "".
    + destruct (String.eqb_spec (String a s) suf) as [<-|_].
      * intros _. by exists "".
      * intros H. destruct (IH H) as [pre ->]. by exists (String a pre).
  - intros [pre ->]. induction pre as [|a pre IH]; rewrite endswith_unfold.
    + change ("" +:+ suf) with suf. by rewrite String.eqb_refl.
    + change (String a pre +:+ suf) with (String a (pre +:+ suf)).
      destruct (String.eqb _ _); [done|exact IH].
Qed.

(** ** Running computations *)

Lemma extend_nil w : extend w [] = w.
Proof. destruct w; unfold extend; simpl. by rewrite app_nil_r. Qed.

Lemma extend_extend w evs1 evs2 :
  extend (extend w evs1) evs2 = extend w (evs1 ++ evs2).
Proof. unfold extend; simpl. by rewrite app_assoc. Qed.

Lemma run_bind_returns {S A B} (c : ST S A) (k : A -> ST S B) w a w' :
  c w = (Returns a, w') -> (x <- c ;; k x) w = k a w'.
Proof. intros H. unfold bind. by rewrite H. Qed.

Lemma run_emit_bind {B} ev (k : unit -> M B) w :
  (x <- emit ev ;; k x) w = k tt (extend w [ev]).
Proof. reflexivity. Qed.

Lemma run_bind_assoc {S A B C} (c : ST S A) (k : A -> ST S B)
    (h : B -> ST S C) w :
  (y <- (x <- c ;; k x) ;; h y) w = (x <- c ;; y <- k x ;; h y) w.
Proof. unfold bind. destruct (c w) as [[a|e] w']; reflexivity. Qed.

(** Membership in a list that is given by its elements. *)
Ltac list_mem :=
  repeat (rewrite ?elem_of_app, ?elem_of_cons, ?elem_of_nil in * );
  intuition (try discriminate; try congruence; eauto).

(** A loop whose body returns without touching the state does nothing. *)
Lemma for_each_skip {S A} (l : list A) (body : A -> ST S unit) w :
  (forall x, x ∈ l -> body x w = (Returns tt, w)) ->
  for_each l body w = (Returns tt, w).
Proof.
  induction l as [|x l IH]; intros Hbody; [reflexivity|].
  simpl. rewrite (run_bind_returns _ _ w tt w).
  - apply IH. intros y Hy. apply Hbody. by right.
  - apply Hbody. by left.
Qed.

(** ** Closing the window *)

(** What [closeEvent] does for each answer of the player. *)
Lemma closeEvent_run env event w :
  closeEvent env event w =
    match player_stop_raises env with
    | Some e =>
        if isinstance_Exception e
        then (Returns tt, extend w [PlayerStop; AppQuit])
        else (Raises e, extend w [PlayerStop])
    | None =>
        match player_shutdown_raises env with
        | Some e =>
            if isinstance_Exception e
            then (Returns tt, extend w [PlayerStop; PlayerShutdown; AppQuit])
            else (Raises e, extend w [PlayerStop; PlayerShutdown])
        | None => (Returns tt, extend w [PlayerStop; PlayerShutdown; AppQuit])
        end
    end.
Proof.
  unfold closeEvent, try_except_else, player_stop, player_shutdown, bind,
    emit, ret, raise.
  destruct (player_stop_raises env) as [e1|];
    [destruct e1; simpl; by rewrite ?extend_extend|].
  destruct (player_shutdown_raises env) as [e2|];
    [destruct e2|]; simpl; by rewrite ?extend_extend.
Qed.

(** C1, as the contract words it, fails: when [player.stop()] raises a
    [RuntimeError] the handler swallows it and quits, and
    [player.shutdown()] is never invoked. *)
Lemma closeEvent_stop_raises_skips_shutdown :
  ~ closeEvent_always_stop_shutdown_quit Sample.stop_fails Sample.close
      Sample.w0.
Proof.
  intros (out & evs & pre & mid & post & Hrun & Hevs).
  rewrite closeEvent_run in Hrun.
  change (player_stop_raises Sample.stop_fails)
    with (Some (ExceptionInstance "RuntimeError")) in Hrun.
  cbv beta iota delta [isinstance_Exception] in Hrun.
  injection Hrun as _ Hw.
  assert (Hin : PlayerShutdown ∈ [PlayerStop; AppQuit]).
  { rewrite Hw, Hevs. list_mem. }
  list_mem.
Qed.

(** C1, amended: [closeEvent] always invokes player stop first, and
    invokes player shutdown, after it, exactly when stop returned without
    raising; and when whatever the player raises is an instance of
    [Exception], it is swallowed and application termination is requested
    last. *)
Theorem closeEvent_best_effort env event w :
  (exists out rest,
     closeEvent env event w = (out, extend w (PlayerStop :: rest)) /\
     (PlayerStop ∉ rest) /\
     (PlayerShutdown ∈ rest <-> player_stop_raises env = None)) /\
  (teardown_raises_Exception_only env ->
   exists calls,
     closeEvent env event w = (Returns tt, extend w (calls ++ [AppQuit])) /\
     (AppQuit ∉ calls)).
Proof.
  rewrite closeEvent_run. unfold teardown_raises_Exception_only.
  destruct (player_stop_raises env) as [e1|] eqn:Hstop.
  - split.
    + destruct (isinstance_Exception e1); eexists _, _;
        (split; [reflexivity|]); list_mem.
    + intros ->. exists [PlayerStop]. split; [reflexivity|list_mem].
  - destruct (player_shutdown_raises env) as [e2|] eqn:Hshut.
    + split.
      * destruct (isinstance_Exception e2); eexists _, _;
          (split; [reflexivity|]); list_mem.
      * intros ->. exists [PlayerStop; PlayerShutdown].
        split; [reflexivity|list_mem].
    + split.
      * eexists _, _. split; [reflexivity|]. list_mem.
      * intros _. exists [PlayerStop; PlayerShutdown].
        split; [reflexivity|list_mem].
Qed.

Lemma closeEvent_best_effort_witness :
  teardown_raises_Exception_only Sample.shutdown_fails /\
  exists calls,
    closeEvent Sample.shutdown_fails Sample.close Sample.w0
      = (Returns tt, extend Sample.w0 (calls ++ [AppQuit])) /\
    (AppQuit ∉ calls).
Proof.
  assert (H : teardown_raises_Exception_only Sample.shutdown_fails)
    by reflexivity.
  split; [exact H|].
  exact (proj2 (closeEvent_best_effort Sample.shutdown_fails Sample.close
                  Sample.w0) H).
Defined.

Example closeEvent_quiet :
  closeEvent Sample.quiet Sample.close Sample.w0
  = (Returns tt, mkWorld [PlayerStop; PlayerShutdown; AppQuit] 50 None).
Proof. reflexivity. Qed.

Example closeEvent_interrupted :
  closeEvent (Sample.env false None (Some (BaseExceptionOnly "SystemExit")))
    Sample.close Sample.w0
  = (Raises (BaseExceptionOnly "SystemExit"),
     mkWorld [PlayerStop; PlayerShutdown] 50 None).
Proof. reflexivity. Qed.

(** ** The scoped action *)

Lemma create_action_run s (block : Action -> M unit) w :
  create_action s block w =
    match block (create_action_handle s)
            (extend w [ShowMsg (s +:+ "...") (Some (-1))]) with
    | (Returns _, w2) =>
        (Returns tt, extend w2 [ShowMsg (s +:+ "...done") None])
    | (Raises e, w2) =>
        if isinstance_Exception e
        then (Raises e, extend w2 [ShowMsg (s +:+ "...error") None])
        else (Raises e, w2)
    end.
Proof.
  unfold create_action, show_msg. rewrite run_emit_bind.
  unfold try_except_else.
  destruct (block (create_action_handle s) _) as [[[]|e] w2]; [reflexivity|].
  destruct (isinstance_Exception e); reflexivity.
Qed.

(** C2, as the contract words it, fails: a block interrupted by
    [KeyboardInterrupt], which is not an instance of [Exception], leaves
    the start message as the only one; no error message is shown. *)
Lemma create_action_interrupt_unreported :
  ~ create_action_reports_any_raise "X" Sample.interrupted Sample.w0.
Proof.
  intros Hclaim.
  destruct (Hclaim (BaseExceptionOnly "KeyboardInterrupt") _ eq_refl)
    as (w' & timeout & Hrun & Hin).
  rewrite create_action_run in Hrun. injection Hrun as <-.
  apply list_elem_of_In in Hin. simpl in Hin.
  destruct Hin as [Hin|[]]. discriminate Hin.
Qed.

(** C2, amended: the block of [create_action(X)] runs after the start
    message "X..." is shown; when it completes, "X...done" is shown; when
    it raises an instance of [Exception], "X...error" is shown and the
    same exception propagates to the caller; any other raised exception
    propagates as well, with no further message. *)
Theorem create_action_reports s block w :
  let entered := extend w [ShowMsg (s +:+ "...") (Some (-1))] in
  (forall w2,
     block (create_action_handle s) entered = (Returns tt, w2) ->
     create_action s block w
     = (Returns tt, extend w2 [ShowMsg (s +:+ "...done") None])) /\
  (forall e w2,
     block (create_action_handle s) entered = (Raises e, w2) ->
     isinstance_Exception e = true ->
     create_action s block w
     = (Raises e, extend w2 [ShowMsg (s +:+ "...error") None])) /\
  (forall e w2,
     block (create_action_handle s) entered = (Raises e, w2) ->
     isinstance_Exception e = false ->
     create_action s block w = (Raises e, w2)).
Proof.
  intros entered. repeat split.
  - intros w2 Hblock. rewrite create_action_run. fold entered.
    by rewrite Hblock.
  - intros e w2 Hblock He. rewrite create_action_run. fold entered.
    by rewrite Hblock, He.
  - intros e w2 Hblock He. rewrite create_action_run. fold entered.
    by rewrite Hblock, He.
Qed.

Lemma create_action_reports_witness :
  create_action "X" Sample.halfway Sample.w0
  = (Returns tt,
     mkWorld [ShowMsg "X..." (Some (-1)); ShowMsg "X...50%" (Some (-1));
              ShowMsg "X...done" None] 50 None) /\
  create_action "X" Sample.broken Sample.w0
  = (Raises (ExceptionInstance "ValueError"),
     mkWorld [ShowMsg "X..." (Some (-1)); ShowMsg "X...50%" (Some (-1));
              ShowMsg "X...error" None] 50 None) /\
  create_action "X" Sample.interrupted Sample.w0
  = (Raises (BaseExceptionOnly "KeyboardInterrupt"),
     mkWorld [ShowMsg "X..." (Some (-1))] 50 None).
Proof.
  destruct (create_action_reports "X" Sample.halfway Sample.w0)
    as (Hdone & _ & _).
  destruct (create_action_reports "X" Sample.broken Sample.w0)
    as (_ & Herror & _).
  destruct (create_action_reports "X" Sample.interrupted Sample.w0)
    as (_ & _ & Hother).
  split; [|split].
  - exact (Hdone _ eq_refl).
  - exact (Herror _ _ eq_refl eq_refl).
  - exact (Hother _ _ eq_refl eq_refl).
Defined.

(** C10: inside a [create_action(X)] block, [failed()] on the yielded
    handle shows "X...failed" and nothing else; if the block, which may do
    anything before and after that call, then completes without an
    exception, "X...done" is still shown afterwards. *)
Theorem create_action_failed_then_done s (before after : Action -> M unit)
    w w1 w2 :
  before (create_action_handle s)
    (extend w [ShowMsg (s +:+ "...") (Some (-1))]) = (Returns tt, w1) ->
  after (create_action_handle s)
    (extend w1 [ShowMsg (s +:+ "...failed") (Some (-1))]) = (Returns tt, w2) ->
  failed (create_action_handle s) w1
  = (Returns tt, extend w1 [ShowMsg (s +:+ "...failed") (Some (-1))]) /\
  create_action s (fun action => before action ;; failed action ;; after action) w
  = (Returns tt, extend w2 [ShowMsg (s +:+ "...done") None]).
Proof.
  intros Hbefore Hafter. split; [reflexivity|].
  rewrite create_action_run.
  rewrite (run_bind_returns _ _ _ _ _ Hbefore).
  change (failed (create_action_handle s))
    with (emit (ShowMsg (s +:+ "...failed") (Some (-1)))).
  rewrite run_emit_bind. by rewrite Hafter.
Qed.

Lemma create_action_failed_then_done_witness :
  create_action "X" (fun action => ret tt ;; failed action ;; ret tt) Sample.w0
  = (Returns tt,
     mkWorld [ShowMsg "X..." (Some (-1)); ShowMsg "X...failed" (Some (-1));
              ShowMsg "X...done" None] 50 None).
Proof.
  exact (proj2 (create_action_failed_then_done "X" (fun _ => ret tt)
                  (fun _ => ret tt) Sample.w0 _ _ eq_refl eq_refl)).
Defined.

(** ** Player event handlers *)

(** C5: for every input [ms] (the non-negative ones among them), the
    position handler forwards [ms * 1000], and nothing else, to the two
    position updates of the UI, and the duration handler forwards
    [ms * 1000] to the two duration updates; 5 is forwarded as 5000. *)
Theorem player_handlers_forward_times_1000 (ms : Z) (w : World) :
  _on_player_position_changed ms w
  = (Returns tt,
     extend w [OnPositionChanged (ms * 1000); SliderUpdateState (ms * 1000)]) /\
  _on_player_duration_changed ms w
  = (Returns tt,
     extend w [OnDurationChanged (ms * 1000); SliderSetDuration (ms * 1000)]) /\
  _on_player_position_changed 5 w
  = (Returns tt, extend w [OnPositionChanged 5000; SliderUpdateState 5000]).
Proof.
  unfold _on_player_position_changed, _on_player_duration_changed.
  rewrite !run_emit_bind. unfold emit. by rewrite !extend_extend.
Qed.

(** C6: under the mac theme the state-changed handler sets no icon (it
    does nothing at all); otherwise it sets the pause icon exactly when
    the state equals the playing state, and the play icon for every other
    state. *)
Theorem on_player_status_changed_icon env {State : Type}
    `{EqDecision State} (playing_state state : State) (w : World) :
  (use_mac_theme env = true ->
   _on_player_status_changed env playing_state state w = (Returns tt, w)) /\
  (use_mac_theme env = false ->
   (state = playing_state ->
    _on_player_status_changed env playing_state state w
    = (Returns tt, extend w [SetIcon SP_MediaPause])) /\
   (state <> playing_state ->
    _on_player_status_changed env playing_state state w
    = (Returns tt, extend w [SetIcon SP_MediaPlay]))).
Proof.
  unfold _on_player_status_changed. split; intros ->; [reflexivity|].
  split; intros Hstate; case_decide; done.
Qed.

Lemma on_player_status_changed_icon_witness :
  _on_player_status_changed Sample.mac playing playing Sample.w0
  = (Returns tt, Sample.w0) /\
  _on_player_status_changed Sample.quiet playing playing Sample.w0
  = (Returns tt, extend Sample.w0 [SetIcon SP_MediaPause]) /\
  _on_player_status_changed Sample.quiet playing other Sample.w0
  = (Returns tt, extend Sample.w0 [SetIcon SP_MediaPlay]).
Proof.
  split; [|split].
  - exact (proj1 (on_player_status_changed_icon Sample.mac playing playing
                    Sample.w0) eq_refl).
  - exact (proj1 (proj2 (on_player_status_changed_icon Sample.quiet playing
                           playing Sample.w0) eq_refl) eq_refl).
  - refine (proj2 (proj2 (on_player_status_changed_icon Sample.quiet playing
                            other Sample.w0) eq_refl) _).
    discriminate.
Defined.

(** ** The stylesheet *)

Lemma extend_same w evs : w = extend w evs -> evs = [].
Proof.
  intros H. apply (f_equal trace) in H. cbn [extend trace] in H.
  rewrite <- (app_nil_r (trace w)) in H at 1. by apply app_inv_head in H.
Qed.

Lemma extend_inj w evs1 evs2 : extend w evs1 = extend w evs2 -> evs1 = evs2.
Proof.
  intros H. apply (f_equal trace) in H. cbn [extend trace] in H.
  by apply app_inv_head in H.
Qed.

(** What [load_qss] does for each theme condition and each answer of
    [open]. *)
Lemma load_qss_run env w :
  load_qss env w =
    if use_mac_theme env then
      let qssfilepath :=
        PosixPath.join (PosixPath.dirname (module_abspath env)) "mac.qss" in
      match file_content (fs env) qssfilepath with
      | Returns qss =>
          (Returns tt, extend w [FileRead qssfilepath; SetStyleSheet qss])
      | Raises e => (Raises e, extend w [FileRead qssfilepath])
      end
    else (Returns tt, w).
Proof.
  unfold load_qss. destruct (use_mac_theme env); [|reflexivity].
  cbn [negb]. cbv zeta. rewrite run_emit_bind. unfold bind, lift_outcome.
  destruct (file_content _ _); [|reflexivity].
  unfold emit. by rewrite extend_extend.
Qed.

(** C7: given that [mac.qss], which lies beside the module, can be
    opened and read, [load_qss] installs a stylesheet exactly when the
    mac-theme condition holds: it then reads that file and applies its
    content application-wide, once.  When the condition does not hold
    [load_qss] returns with the world as it found it, and in no case does
    it install a stylesheet without the condition. *)
Theorem load_qss_only_under_mac_theme env w :
  let qssfilepath :=
    PosixPath.join (PosixPath.dirname (module_abspath env)) "mac.qss" in
  (use_mac_theme env = false -> load_qss env w = (Returns tt, w)) /\
  (forall out evs,
     load_qss env w = (out, extend w evs) ->
     stylesheet_writes evs <> [] -> use_mac_theme env = true) /\
  (forall qss,
     file_content (fs env) qssfilepath = Returns qss ->
     exists evs,
       load_qss env w = (Returns tt, extend w evs) /\
       (stylesheet_writes evs <> [] <-> use_mac_theme env = true) /\
       (use_mac_theme env = true ->
        evs = [FileRead qssfilepath; SetStyleSheet qss]) /\
       (use_mac_theme env = false -> evs = [])).
Proof.
  intros qssfilepath. rewrite load_qss_run. subst qssfilepath. cbv zeta.
  destruct (use_mac_theme env).
  - split; [done|]. split; [done|]. intros qss Hread. rewrite Hread.
    eexists. split; [reflexivity|]. by repeat split.
  - split; [done|]. split.
    + intros out evs Hrun Hwrites. injection Hrun as _ Hw.
      apply extend_same in Hw. by subst evs.
    + intros qss _. exists []. rewrite extend_nil. by repeat split.
Qed.

Lemma load_qss_only_under_mac_theme_witness :
  load_qss Sample.mac Sample.w0
  = (Returns tt,
     mkWorld [FileRead "/opt/feeluown/mac.qss";
              SetStyleSheet "QWidget { color: white; }"] 50 None) /\
  load_qss Sample.quiet Sample.w0 = (Returns tt, Sample.w0).
Proof.
  split.
  - destruct (load_qss_only_under_mac_theme Sample.mac Sample.w0)
      as (_ & _ & Hreadable).
    destruct (Hreadable _ eq_refl) as (evs & Hrun & _ & Hmac & _).
    rewrite Hrun, (Hmac eq_refl). reflexivity.
  - destruct (load_qss_only_under_mac_theme Sample.quiet Sample.w0)
      as (Hplain & _ & _).
    exact (Hplain eq_refl).
Defined.

(** When [mac.qss] cannot be opened under the mac theme, [load_qss]
    raises what [open] raised and installs nothing. *)
Example load_qss_without_qss :
  load_qss Sample.mac_without_qss Sample.w0
  = (Raises (ExceptionInstance "FileNotFoundError"),
     mkWorld [FileRead "/a/mac.qss"] 50 None).
Proof. reflexivity. Qed.

(** ** Fetching a pixmap *)

Section PixmapFromUrl.
Variables (env : Env) (url : string) (callback : option string) (w : World).

Lemma pixmap_from_url_run :
  pixmap_from_url env url callback w =
    match request_get env url (size_param env) with
    | None => (Returns None, extend w [RequestGet url (size_param env)])
    | Some content =>
        let pixmap := loadFromData env content in
        if isNull pixmap
        then (Returns None, extend w [RequestGet url (size_param env)])
        else (Returns (Some pixmap),
              extend w (RequestGet url (size_param env) ::
                        match callback with
                        | Some cb => [CallbackCall cb pixmap]
                        | None => []
                        end))
    end.
Proof.
  unfold pixmap_from_url, request_get_call. 
  rewrite run_bind_assoc, run_emit_bind. unfold bind at 1, ret at 1.
  destruct (request_get env url (size_param env)) as [content|]; [|reflexivity].
  simpl. destruct (isNull (loadFromData env content)); [reflexivity|].
  destruct callback as [cb|]; unfold bind, emit, ret;
    by rewrite ?extend_extend.
Qed.

End PixmapFromUrl.

Example size_param_1000 : size_param Sample.quiet = [("param", "1000y1000")].
Proof. reflexivity. Qed.

(** C4: for every url, [pixmap_from_url] returns [None] when the fetch
    returns no response, and returns [None] when the fetched bytes decode
    to a null image; in both cases it returns, it does not raise. *)
Theorem pixmap_from_url_failure_is_None env url callback w :
  (request_get env url (size_param env) = None ->
   pixmap_from_url env url callback w
   = (Returns None, extend w [RequestGet url (size_param env)])) /\
  (forall content,
     request_get env url (size_param env) = Some content ->
     isNull (loadFromData env content) = true ->
     pixmap_from_url env url callback w
     = (Returns None, extend w [RequestGet url (size_param env)])).
Proof.
  split.
  - intros Hget. by rewrite pixmap_from_url_run, Hget.
  - intros content Hget Hnull. rewrite pixmap_from_url_run, Hget. simpl.
    by rewrite Hnull.
Qed.

Lemma pixmap_from_url_failure_is_None_witness :
  pixmap_from_url Sample.quiet "http://down" (Some "show_cover") Sample.w0
  = (Returns None,
     extend Sample.w0 [RequestGet "http://down" [("param", "1000y1000")]]) /\
  pixmap_from_url Sample.quiet "http://img/broken" (Some "show_cover") Sample.w0
  = (Returns None,
     extend Sample.w0
       [RequestGet "http://img/broken" [("param", "1000y1000")]]).
Proof.
  split.
  - exact (proj1 (pixmap_from_url_failure_is_None Sample.quiet "http://down"
                    (Some "show_cover") Sample.w0) eq_refl).
  - exact (proj2 (pixmap_from_url_failure_is_None Sample.quiet
                    "http://img/broken" (Some "show_cover") Sample.w0)
             [] eq_refl eq_refl).
Defined.

(** C8: when the fetch succeeds and the bytes decode to a non-null
    pixmap, [pixmap_from_url] invokes the callback, when one is supplied,
    exactly once with that pixmap, and returns the same pixmap; on the two
    failure paths the callback is never invoked. *)
Theorem pixmap_from_url_callback env url callback w :
  (forall content pixmap,
     request_get env url (size_param env) = Some content ->
     loadFromData env content = pixmap ->
     isNull pixmap = false ->
     exists evs,
       pixmap_from_url env url callback w
       = (Returns (Some pixmap), extend w evs) /\
       callback_calls evs
       = match callback with Some cb => [(cb, pixmap)] | None => [] end) /\
  (request_get env url (size_param env) = None \/
   (exists content,
      request_get env url (size_param env) = Some content /\
      isNull (loadFromData env content) = true) ->
   exists evs,
     pixmap_from_url env url callback w = (Returns None, extend w evs) /\
     callback_calls evs = []).
Proof.
  split.
  - intros content pixmap Hget <- Hnull.
    rewrite pixmap_from_url_run, Hget. simpl. rewrite Hnull.
    eexists. split; [reflexivity|]. by destruct callback.
  - intros [Hget|(content & Hget & Hnull)];
      rewrite pixmap_from_url_run, Hget; simpl; rewrite ?Hnull;
      by eexists.
Qed.

Lemma pixmap_from_url_callback_witness :
  (exists evs,
     pixmap_from_url Sample.quiet "http://img/cover.png" (Some "show_cover")
       Sample.w0
     = (Returns (Some (Pixmap Sample.png)), extend Sample.w0 evs) /\
     callback_calls evs = [("show_cover", Pixmap Sample.png)]) /\
  (exists evs,
     pixmap_from_url Sample.quiet "http://img/broken" (Some "show_cover")
       Sample.w0
     = (Returns None, extend Sample.w0 evs) /\
     callback_calls evs = []).
Proof.
  split.
  - exact (proj1 (pixmap_from_url_callback Sample.quiet "http://img/cover.png"
                    (Some "show_cover") Sample.w0)
             Sample.png (Pixmap Sample.png) eq_refl eq_refl eq_refl).
  - refine (proj2 (pixmap_from_url_callback Sample.quiet "http://img/broken"
                     (Some "show_cover") Sample.w0) _).
    right. exists []. split; reflexivity.
Defined.

Example pixmap_from_url_cover :
  pixmap_from_url Sample.quiet "http://img/cover.png" (Some "show_cover")
    Sample.w0
  = (Returns (Some (Pixmap Sample.png)),
     mkWorld [RequestGet "http://img/cover.png" [("param", "1000y1000")];
              CallbackCall "show_cover" (Pixmap Sample.png)] 50 None).
Proof. reflexivity. Qed.

(** ** Scanning for [.fuo] files *)

Section Scan.
Variable env : Env.

(** The inner loop over a directory's listing. *)
Lemma listdir_loop_elem filepath names (acc : list string) p :
  p ∈ fold_left
        (fun f_list fname =>
           let fpath := PosixPath.join filepath fname in
           if os_path_isfile (fs env) fpath then f_list ++ [fpath] else f_list)
        names acc
  <-> p ∈ acc \/
      exists fname,
        fname ∈ names /\ p = PosixPath.join filepath fname /\
        os_path_isfile (fs env) p = true.
Proof.
  revert acc. induction names as [|fname names IH]; intros acc; simpl.
  - split; [by left|]. intros [H|(fname & H & _)]; [done|]. by inversion H.
  - rewrite IH. clear IH.
    destruct (os_path_isfile (fs env) (PosixPath.join filepath fname)) eqn:Hf.
    + rewrite elem_of_app, elem_of_cons, elem_of_nil. split.
      * intros [[H|[->|[]]]|(f & Hin & Hp & Hfile)]; [by left|right..].
        -- exists fname. split; [by left|done].
        -- exists f. split; [by right|done].
      * intros [H|(f & Hin & Hp & Hfile)]; [by left; left|].
        apply elem_of_cons in Hin as [->|Hin]; [left; right; by left|].
        right. by exists f.
    + split.
      * intros [H|(f & Hin & Hp & Hfile)]; [by left|right].
        exists f. split; [by right|done].
      * intros [H|(f & Hin & Hp & Hfile)]; [by left|].
        apply elem_of_cons in Hin as [->|Hin]; [congruence|].
        right. by exists f.
Qed.

(** The outer loop, from any [f_list] collected so far. *)
Lemma paths_loop_elem fuo_files (acc : list string) p :
  p ∈ fold_left
        (fun f_list filepath =>
           if negb (os_path_exists (fs env) filepath) then f_list
           else if os_path_isdir (fs env) filepath then
             fold_left
               (fun f_list fname =>
                  let fpath := PosixPath.join filepath fname in
                  if os_path_isfile (fs env) fpath then f_list ++ [fpath]
                  else f_list)
               (os_listdir (fs env) filepath) f_list
           else f_list ++ [filepath])
        fuo_files acc
  <-> p ∈ acc \/
      exists filepath, filepath ∈ fuo_files /\ expands_to env filepath p.
Proof.
  revert acc. induction fuo_files as [|filepath fuo_files IH]; intros acc.
  - simpl. split; [by left|]. intros [H|(f & H & _)]; [done|]. by inversion H.
  - cbn [fold_left]. rewrite IH. clear IH. unfold expands_to.
    destruct (os_path_exists (fs env) filepath) eqn:Hex; cbn [negb].
    + destruct (os_path_isdir (fs env) filepath) eqn:Hdir.
      * rewrite listdir_loop_elem. split.
        -- intros [[H|H]|(f & Hin & H)]; [by left|right..].
           ++ exists filepath. split; [by left|]. rewrite Hex, Hdir. eauto.
           ++ exists f. split; [by right|done].
        -- intros [H|(f & Hin & H)]; [by left; left|].
           apply elem_of_cons in Hin as [->|Hin]; [|right; by exists f].
           rewrite Hdir in H. destruct H as (_ & [[? _]|[_ H]]); [done|].
           left. by right.
      * rewrite elem_of_app, elem_of_cons, elem_of_nil. split.
        -- intros [[H|[->|[]]]|(f & Hin & H)]; [by left|right..].
           ++ exists filepath. split; [by left|]. rewrite Hex, Hdir. eauto.
           ++ exists f. split; [by right|done].
        -- intros [H|(f & Hin & H)]; [by left; left|].
           apply elem_of_cons in Hin as [->|Hin]; [|right; by exists f].
           rewrite Hdir in H. destruct H as (_ & [[_ ->]|[? _]]); [|done].
           left. right. by left.
    + split.
      * intros [H|(f & Hin & H)]; [by left|right].
        exists f. split; [by right|done].
      * intros [H|(f & Hin & H)]; [by left|].
        apply elem_of_cons in Hin as [->|Hin]; [|right; by exists f].
        rewrite Hex in H. by destruct H.
Qed.

Lemma scan_f_list_elem fuo_files p :
  p ∈ scan_f_list env fuo_files
  <-> exists filepath, filepath ∈ fuo_files /\ expands_to env filepath p.
Proof.
  unfold scan_f_list. rewrite paths_loop_elem, elem_of_nil. tauto.
Qed.

(** The second loop, observed: it returns, and it reaches [name = ...] for
    the entries whose basename ends with [.fuo], in order. *)
Lemma recognizing_loop f_list (acc : list (string * string)) :
  for_each f_list
    (fun fpath =>
       let basename := PosixPath.basename fpath in
       if negb (PyStr.endswith basename ".fuo") then ret tt
       else
         let name := PyStr.rsplit1_head "." basename in
         fun acc => (Returns tt, acc ++ [(fpath, name)])) acc
  = (Returns tt,
     acc ++ omap (fun fpath =>
                    let basename := PosixPath.basename fpath in
                    if PyStr.endswith basename ".fuo"
                    then Some (fpath, PyStr.rsplit1_head "." basename)
                    else None) f_list).
Proof.
  revert acc. induction f_list as [|fpath f_list IH]; intros acc.
  - simpl. by rewrite app_nil_r.
  - cbn [for_each omap list_omap]. unfold bind at 1. cbv zeta.
    destruct (PyStr.endswith (PosixPath.basename fpath) ".fuo"); cbn [negb].
    + rewrite IH. by rewrite <- app_assoc.
    + unfold ret at 1. by rewrite IH.
Qed.

Lemma scan_recognized_elem fpath :
  fpath ∈ (scan_recognized env).*1
  <-> PyStr.endswith (PosixPath.basename fpath) ".fuo" = true /\
      exists filepath,
        filepath ∈ config_FUO_FILES env /\ expands_to env filepath fpath.
Proof.
  unfold scan_recognized, scan_fuo_files_with. rewrite recognizing_loop.
  cbn [snd app]. rewrite <- scan_f_list_elem.
  rewrite list_elem_of_fmap. split.
  - intros ([p n] & -> & Hin). apply list_elem_of_omap in Hin as (q & Hq & Hsome).
    cbv zeta in Hsome.
    destruct (PyStr.endswith (PosixPath.basename q) ".fuo") eqn:Hend; [|done].
    injection Hsome as <- <-. by split.
  - intros [Hend Hin].
    exists (fpath, PyStr.rsplit1_head "." (PosixPath.basename fpath)).
    split; [done|]. apply list_elem_of_omap. exists fpath. split; [done|].
    cbv zeta. by rewrite Hend.
Qed.

End Scan.

(** C3: the entries [scan_fuo_files] recognizes are the configured paths
    that exist, each directory replaced by the regular files listed
    directly in it, whose basename ends with [.fuo]; for the paths
    [/a/b.fuo], [/missing], [/dir] of the example they are exactly
    [/a/b.fuo] and [/dir/c.fuo]. *)
Theorem scan_fuo_files_recognizes env :
  (forall fpath,
     fpath ∈ (scan_recognized env).*1
     <-> PyStr.endswith (PosixPath.basename fpath) ".fuo" = true /\
         exists filepath,
           filepath ∈ config_FUO_FILES env /\ expands_to env filepath fpath) /\
  (example_tree env ->
   list_to_set (scan_recognized env).*1
   =@{gset string} {[ "/a/b.fuo"; "/dir/c.fuo" ]}).
Proof.
  split; [apply scan_recognized_elem|].
  intros (Hcfg & Hb & Hbfile & Hmissing & Hdir & Hisdir & Hls & Hc & Hd).
  apply set_eq. intros fpath.
  rewrite elem_of_list_to_set, scan_recognized_elem, Hcfg.
  rewrite elem_of_union, !elem_of_singleton. unfold expands_to. split.
  - intros (Hend & filepath & Hin & Hex & Hexp).
    rewrite !elem_of_cons, elem_of_nil in Hin.
    destruct Hin as [->|[->|[->|[]]]].
    + destruct Hexp as [[_ ->]|[Habs _]]; [by left|congruence].
    + congruence.
    + destruct Hexp as [[Habs _]|(_ & fname & Hfname & -> & _)]; [congruence|].
      rewrite Hls, !elem_of_cons, elem_of_nil in Hfname.
      destruct Hfname as [->|[->|[]]]; [by right|discriminate Hend].
  - intros [-> | ->]; (split; [reflexivity|]).
    + exists "/a/b.fuo". split; [by left|]. split; [done|]. by left.
    + exists "/dir". split; [by right; right; left|]. split; [done|].
      right. split; [done|]. exists "c.fuo".
      split; [rewrite Hls; by left|done].
Qed.

Lemma scan_fuo_files_recognizes_witness :
  example_tree Sample.quiet /\
  list_to_set (scan_recognized Sample.quiet).*1
  =@{gset string} {[ "/a/b.fuo"; "/dir/c.fuo" ]}.
Proof.
  assert (H : example_tree Sample.quiet).
  { unfold example_tree. simpl. repeat split; try reflexivity.
    apply Permutation_swap. }
  split; [exact H|].
  exact (proj2 (scan_fuo_files_recognizes Sample.quiet) H).
Defined.

Example scan_recognized_sample :
  scan_recognized Sample.quiet = [("/a/b.fuo", "b"); ("/dir/c.fuo", "c")].
Proof. reflexivity. Qed.

(** C9: [scan_fuo_files] has no effect on the shell: for every
    configuration and file system it returns nothing and leaves the
    world, trace and attributes, as it found it; the derived name is
    dropped. *)
Theorem scan_fuo_files_no_effect env (w : World) :
  scan_fuo_files env w = (Returns tt, w).
Proof.
  unfold scan_fuo_files, scan_fuo_files_with.
  apply for_each_skip. intros fpath _. cbv zeta.
  by destruct (negb _).
Qed.

(** By contrast [change_volume] does assign an attribute. *)
Example change_volume_assigns :
  change_volume 80 Sample.w0 = (Returns tt, mkWorld [] 80 None).
Proof. reflexivity. Qed.

(** ** Searching and slicing strings *)

Lemma rfind_lower c s : -1 <= PyStr.rfind c s.
Proof.
  induction s as [|a s IH]; simpl; [done|].
  destruct (Z.leb_spec 0 (PyStr.rfind c s)); [lia|].
  destruct (Ascii.eqb a c); lia.
Qed.

(** A needle absent from the tail is found where it is in the head. *)
Lemma rfind_app_absent c a b :
  PyStr.rfind c b = -1 -> PyStr.rfind c (a +:+ b) = PyStr.rfind c a.
Proof.
  intros Hb. induction a as [|x a IH]; simpl; [done|]. by rewrite IH.
Qed.

(** A needle present in the tail is found there, past the head. *)
Lemma rfind_app_present c a b :
  0 <= PyStr.rfind c b ->
  PyStr.rfind c (a +:+ b) = Z.of_nat (String.length a) + PyStr.rfind c b.
Proof.
  intros Hb. induction a as [|x a IH].
  - change ("" +:+ b) with b. change (String.length "") with 0%nat. lia.
  - change (String x a +:+ b) with (String x (a +:+ b)).
    change (String.length (String x a)) with (S (String.length a)).
    cbn [PyStr.rfind]. rewrite IH.
    destruct (Z.leb_spec 0 (Z.of_nat (String.length a) + PyStr.rfind c b));
      lia.
Qed.

Lemma rfind_app_none c a b :
  PyStr.rfind c (a +:+ b) = -1 ->
  PyStr.rfind c a = -1 /\ PyStr.rfind c b = -1.
Proof.
  intros H. pose proof (rfind_lower c b) as Hb.
  destruct (Z.eq_dec (PyStr.rfind c b) (-1)) as [Heq|Hne].
  - split; [|done]. by rewrite rfind_app_absent in H.
  - rewrite rfind_app_present in H by lia. lia.
Qed.

Lemma string_app_nil (b : string) : "" +:+ b = b.
Proof. reflexivity. Qed.

Lemma string_app_cons x (a b : string) : String x a +:+ b = String x (a +:+ b).
Proof. reflexivity. Qed.

Lemma slice_from_app a b : PyStr.slice_from (String.length a) (a +:+ b) = b.
Proof.
  induction a as [|x a IH]; [by destruct b|].
  rewrite string_app_cons. exact IH.
Qed.

Lemma slice_to_app a b : PyStr.slice_to (String.length a) (a +:+ b) = a.
Proof.
  induction a as [|x a IH]; [done|].
  rewrite string_app_cons. cbn [String.length PyStr.slice_to]. by rewrite IH.
Qed.

Lemma string_app_assoc (a b c : string) : (a +:+ b) +:+ c = a +:+ (b +:+ c).
Proof.
  induction a as [|x a IH]; [done|]. rewrite !string_app_cons. by rewrite IH.
Qed.

Lemma string_app_length (a b : string) :
  String.length (a +:+ b) = (String.length a + String.length b)%nat.
Proof.
  induction a as [|x a IH]; [done|].
  rewrite string_app_cons. cbn [String.length]. by rewrite IH.
Qed.

(** What follows the last occurrence holds no occurrence. *)
Lemma rfind_after_last c s :
  PyStr.rfind c (PyStr.slice_from (Z.to_nat (PyStr.rfind c s + 1)) s) = -1.
Proof.
  induction s as [|a s IH]; [done|].
  pose proof (rfind_lower c s) as Hlow. cbn [PyStr.rfind].
  destruct (Z.leb_spec 0 (PyStr.rfind c s)) as [Hpos|Hneg].
  - replace (Z.to_nat (PyStr.rfind c s + 1 + 1))
      with (S (Z.to_nat (PyStr.rfind c s + 1))) by lia.
    exact IH.
  - assert (Hnone : PyStr.rfind c s = -1) by lia.
    destruct (Ascii.eqb a c) eqn:E; simpl; [done|].
    by rewrite Hnone, E.
Qed.

(** ** Paths *)

Lemma startswith_sep_found b :
  PyStr.startswith b "/" = true -> 0 <= PyStr.rfind PosixPath.sep b.
Proof.
  unfold PyStr.startswith. destruct b as [|x b]; [intros; discriminate|].
  cbn [String.prefix PyStr.rfind].
  destruct (Ascii.ascii_dec "/" x) as [<-|]; [|intros; discriminate].
  intros _. pose proof (rfind_lower PosixPath.sep b).
  destruct (Z.leb_spec 0 (PyStr.rfind PosixPath.sep b)); [lia|].
  unfold PosixPath.sep. by rewrite Ascii.eqb_refl.
Qed.

Lemma rfind_sep_last pre :
  PyStr.rfind PosixPath.sep (pre +:+ "/") = Z.of_nat (String.length pre).
Proof. rewrite rfind_app_present; [|done]. simpl. lia. Qed.

(** Joining a directory and a name that holds no slash, then taking the
    basename, gives the name back. *)
Lemma basename_join d fname :
  PyStr.rfind PosixPath.sep fname = -1 ->
  PosixPath.basename (PosixPath.join d fname) = fname.
Proof.
  intros Hname. unfold PosixPath.join, PosixPath.basename.
  destruct (PyStr.startswith fname "/") eqn:Hstart.
  { apply startswith_sep_found in Hstart. lia. }
  destruct (String.eqb_spec d "") as [->|Hd]; simpl orb.
  { rewrite string_app_nil, Hname. done. }
  destruct (PyStr.endswith d "/") eqn:Hend.
  - apply endswith_spec in Hend as [pre ->].
    rewrite rfind_app_absent, rfind_sep_last by done.
    replace (Z.to_nat (Z.of_nat (String.length pre) + 1))
      with (String.length (pre +:+ "/")) by (rewrite string_app_length; simpl; lia).
    apply slice_from_app.
  - assert (Hhead : PyStr.rfind PosixPath.sep ("/" +:+ fname) = 0).
    { change ("/" +:+ fname) with (String "/" fname).
      cbn [PyStr.rfind]. by rewrite Hname. }
    rewrite rfind_app_present by lia. rewrite Hhead.
    replace (Z.to_nat (Z.of_nat (String.length d) + 0 + 1))
      with (String.length (d +:+ "/")) by (rewrite string_app_length; simpl; lia).
    rewrite <- (slice_from_app (d +:+ "/") fname) at 2.
    by rewrite string_app_assoc.
Qed.

(** The basename of a path holds no slash. *)
Lemma basename_no_sep p :
  PyStr.rfind PosixPath.sep (PosixPath.basename p) = -1.
Proof. apply rfind_after_last. Qed.

(** Stripping the extension the way the scan does, after the test it
    makes, loses nothing but the four characters. *)
Lemma fuo_name_roundtrip basename :
  PyStr.endswith basename ".fuo" = true ->
  PyStr.rsplit1_head "." basename +:+ ".fuo" = basename.
Proof.
  intros Hend. apply endswith_spec in Hend as [pre ->].
  unfold PyStr.rsplit1_head.
  rewrite rfind_app_present by done.
  change (PyStr.rfind "." ".fuo") with 0.
  destruct (Z.leb_spec 0 (Z.of_nat (String.length pre) + 0)); [|lia].
  replace (Z.to_nat (Z.of_nat (String.length pre) + 0))
    with (String.length pre) by lia.
  by rewrite slice_to_app.
Qed.

Lemma rstrip_idem c s : PyStr.rstrip c (PyStr.rstrip c s) = PyStr.rstrip c s.
Proof.
  induction s as [|a s IH]; [done|]. cbn [PyStr.rstrip].
  destruct (PyStr.rstrip c s) as [|x t] eqn:Hs.
  - destruct (Ascii.eqb a c) eqn:E; [done|]. cbn [PyStr.rstrip]. by rewrite E.
  - cbn [PyStr.rstrip]. cbn [PyStr.rstrip] in IH. by rewrite IH.
Qed.

Lemma rstrip_app_sep c s :
  PyStr.rstrip c (s +:+ String c "") = PyStr.rstrip c s.
Proof.
  induction s as [|a s IH].
  - rewrite string_app_nil. cbn [PyStr.rstrip]. by rewrite Ascii.eqb_refl.
  - rewrite string_app_cons. cbn [PyStr.rstrip]. by rewrite IH.
Qed.

Lemma rstrip_length c s :
  (String.length (PyStr.rstrip c s) <= String.length s)%nat.
Proof.
  induction s as [|a s IH]; [done|]. cbn [PyStr.rstrip].
  destruct (PyStr.rstrip c s) as [|x t].
  - destruct (Ascii.eqb a c); simpl; lia.
  - simpl in *. lia.
Qed.

(** A string that strips to nothing ends with the stripped character,
    unless it is empty. *)
Lemma rstrip_nil_endswith c s :
  PyStr.rstrip c s = "" -> s <> "" -> PyStr.endswith s (String c "") = true.
Proof.
  induction s as [|a s IH]; [done|]. cbn [PyStr.rstrip]. intros Hstrip _.
  destruct (PyStr.rstrip c s) as [|x t] eqn:Hs; [|done].
  destruct (Ascii.eqb_spec a c) as [->|]; [|done].
  rewrite endswith_unfold. destruct s as [|y s].
  - by rewrite String.eqb_refl.
  - rewrite IH by done. by destruct (String.eqb _ _).
Qed.

(** A string that stripping leaves alone does not end with the stripped
    character. *)
Lemma rstrip_fixed_endswith c s :
  PyStr.rstrip c s = s -> PyStr.endswith s (String c "") = false.
Proof.
  intros Hfix. destruct (PyStr.endswith s (String c "")) eqn:Hend; [|done].
  apply endswith_spec in Hend as [pre ->].
  rewrite rstrip_app_sep in Hfix.
  pose proof (rstrip_length c pre) as Hlen.
  rewrite Hfix, string_app_length in Hlen. simpl in Hlen. lia.
Qed.

(** What [dirname] returns is made of slashes only (or empty), or has no
    trailing slash. *)
Lemma dirname_shape p :
  PyStr.rstrip PosixPath.sep (PosixPath.dirname p) = "" \/
  PyStr.rstrip PosixPath.sep (PosixPath.dirname p) = PosixPath.dirname p /\
  PosixPath.dirname p <> "".
Proof.
  unfold PosixPath.dirname.
  set (head := PyStr.slice_to _ p).
  destruct (PyStr.rstrip PosixPath.sep head) as [|x t] eqn:Hs; [by left|].
  right. split; [|done]. rewrite <- Hs. apply rstrip_idem.
Qed.

(** The directory of a name joined to such a directory is that
    directory. *)
Lemma dirname_join d fname :
  PyStr.rstrip PosixPath.sep d = "" \/
  PyStr.rstrip PosixPath.sep d = d /\ d <> "" ->
  PyStr.rfind PosixPath.sep fname = -1 ->
  PosixPath.dirname (PosixPath.join d fname) = d.
Proof.
  intros Hshape Hname. unfold PosixPath.join.
  destruct (PyStr.startswith fname "/") eqn:Hstart.
  { apply startswith_sep_found in Hstart. lia. }
  destruct (String.eqb_spec d "") as [->|Hd]; simpl orb.
  { rewrite string_app_nil. unfold PosixPath.dirname. by rewrite Hname. }
  destruct Hshape as [Hnil|[Hfix _]].
  - pose proof (rstrip_nil_endswith _ _ Hnil Hd) as Hend.
    change (String PosixPath.sep "") with "/" in Hend. rewrite Hend.
    apply endswith_spec in Hend as [pre Hpre].
    assert (Hi : Z.to_nat (PyStr.rfind PosixPath.sep d + 1) = String.length d).
    { rewrite Hpre, rfind_sep_last, string_app_length. simpl. lia. }
    unfold PosixPath.dirname. rewrite rfind_app_absent by done.
    by rewrite Hi, slice_to_app, Hnil.
  - pose proof (rstrip_fixed_endswith _ _ Hfix) as Hend.
    change (String PosixPath.sep "") with "/" in Hend. rewrite Hend.
    assert (Hhead : PyStr.rfind PosixPath.sep ("/" +:+ fname) = 0).
    { change ("/" +:+ fname) with (String "/" fname).
      cbn [PyStr.rfind]. by rewrite Hname. }
    unfold PosixPath.dirname. rewrite rfind_app_present by lia.
    rewrite Hhead.
    replace (Z.to_nat (Z.of_nat (String.length d) + 0 + 1))
      with (String.length (d +:+ "/"))
      by (rewrite string_app_length; simpl; lia).
    rewrite <- (string_app_assoc d "/" fname), slice_to_app.
    change (d +:+ "/") with (d +:+ String PosixPath.sep "").
    rewrite rstrip_app_sep, Hfix. by destruct d.
Qed.

(** ** More on the scoped action *)

(** X1: [create_action] never changes how its block ends: it returns
    when the block returns and raises the block's own exception when the
    block raises; after the block it adds one closing message, or none. *)
Theorem create_action_keeps_outcome s (block : Action -> M unit) w :
  let ran :=
    block (create_action_handle s)
      (extend w [ShowMsg (s +:+ "...") (Some (-1))]) in
  fst (create_action s block w) = fst ran /\
  exists closing,
    snd (create_action s block w) = extend (snd ran) closing /\
    (length closing <= 1)%nat.
Proof.
  cbv zeta. rewrite create_action_run.
  destruct (block _ _) as [[[]|e] w2]; cbn [fst snd].
  - split; [done|]. eexists. split; [reflexivity|simpl; lia].
  - destruct (isinstance_Exception e); cbn [fst snd]; (split; [done|]).
    + eexists. split; [reflexivity|simpl; lia].
    + exists []. rewrite extend_nil. split; [done|simpl; lia].
Qed.

(** X2: when a [create_action] block runs inside another and raises an
    instance of [Exception], the error is reported for the inner action
    first, then for the outer one, and the same exception leaves both. *)
Theorem create_action_nested_error outer inner (block : Action -> M unit)
    e w w2 :
  block (create_action_handle inner)
    (extend w [ShowMsg (outer +:+ "...") (Some (-1));
               ShowMsg (inner +:+ "...") (Some (-1))]) = (Raises e, w2) ->
  isinstance_Exception e = true ->
  create_action outer (fun _ => create_action inner block) w
  = (Raises e,
     extend w2 [ShowMsg (inner +:+ "...error") None;
                ShowMsg (outer +:+ "...error") None]).
Proof.
  intros Hblock He. rewrite create_action_run, create_action_run.
  rewrite extend_extend. cbn [app]. rewrite Hblock, He, He.
  by rewrite extend_extend.
Qed.

Lemma create_action_nested_error_witness :
  create_action "sync" (fun _ => create_action "fetch" Sample.broken)
    Sample.w0
  = (Raises (ExceptionInstance "ValueError"),
     mkWorld [ShowMsg "sync..." (Some (-1)); ShowMsg "fetch..." (Some (-1));
              ShowMsg "fetch...50%" (Some (-1));
              ShowMsg "fetch...error" None; ShowMsg "sync...error" None]
       50 None).
Proof.
  exact (create_action_nested_error "sync" "fetch" Sample.broken _
           Sample.w0 _ eq_refl eq_refl).
Defined.

(** Whatever [int(value * 100)] raises is an instance of [Exception]. *)
Lemma percent_raises_Exception value e :
  percent value = Raises e -> isinstance_Exception e = true.
Proof.
  destruct value as [n|x]; cbn [percent]; [discriminate|].
  unfold int_of_float. destruct (Prim2SF _); intros [= <-]; reflexivity.
Qed.

Lemma call_handle_run s c w :
  call_handle (create_action_handle s) c w =
    match handle_message s c with
    | Returns message => (Returns tt, extend w [message])
    | Raises e => (Raises e, w)
    end.
Proof.
  destruct c as [value|]; [|reflexivity].
  cbn [call_handle handle_message create_action_handle set_progress].
  unfold bind, lift_outcome. by destruct (percent value).
Qed.

Lemma for_each_app {S A} (l1 l2 : list A) (body : A -> ST S unit) w :
  for_each (l1 ++ l2) body w = (for_each l1 body ;; for_each l2 body) w.
Proof.
  revert w. induction l1 as [|x l1 IH]; intros w; [reflexivity|].
  cbn [app for_each]. unfold bind in *.
  destruct (body x w) as [[[]|e] w1]; [apply IH|reflexivity].
Qed.

(** A run of calls on the handle that all show their message returns. *)
Lemma call_handle_loop s calls messages w :
  Forall2 (fun c message => handle_message s c = Returns message)
    calls messages ->
  for_each calls (call_handle (create_action_handle s)) w
  = (Returns tt, extend w messages).
Proof.
  intros Hcalls. revert w.
  induction Hcalls as [|c message calls messages Hc _ IH]; intros w.
  - by rewrite extend_nil.
  - cbn [for_each]. unfold bind. rewrite call_handle_run, Hc, IH.
    by rewrite extend_extend.
Qed.

(** X3: [failed] never raises, and [set_progress] does not raise as long
    as [int(value * 100)] does not: a block that makes any such calls, in
    any order, ends with "done" after exactly one message a call, in the
    order of the calls. *)
Theorem create_action_handle_calls s (calls : list HandleCall) messages w :
  Forall2 (fun c message => handle_message s c = Returns message)
    calls messages ->
  create_action s (fun action => for_each calls (call_handle action)) w
  = (Returns tt,
     extend w (ShowMsg (s +:+ "...") (Some (-1))
               :: messages ++ [ShowMsg (s +:+ "...done") None])).
Proof.
  intros Hcalls. rewrite create_action_run.
  rewrite (call_handle_loop _ _ _ _ Hcalls).
  by rewrite !extend_extend.
Qed.

Lemma create_action_handle_calls_witness :
  create_action "X"
    (fun action =>
       for_each [CallSetProgress (PyFloat 0.5); CallFailed;
                 CallSetProgress (PyInt 1)] (call_handle action)) Sample.w0
  = (Returns tt,
     extend Sample.w0
       [ShowMsg "X..." (Some (-1)); ShowMsg "X...50%" (Some (-1));
        ShowMsg "X...failed" (Some (-1)); ShowMsg "X...100%" (Some (-1));
        ShowMsg "X...done" None]).
Proof.
  apply (create_action_handle_calls "X"
           [CallSetProgress (PyFloat 0.5); CallFailed;
            CallSetProgress (PyInt 1)]
           [ShowMsg "X...50%" (Some (-1)); ShowMsg "X...failed" (Some (-1));
            ShowMsg "X...100%" (Some (-1))]).
  repeat constructor.
Defined.

(** X4: when [int(value * 100)] raises in a [set_progress] call, as it
    does for NaN and the infinities, the call shows nothing, the calls
    after it in the block are not made, and [create_action] shows
    "error" and lets the exception through. *)
Theorem create_action_bad_progress s (before after : list HandleCall)
    messages value e w :
  Forall2 (fun c message => handle_message s c = Returns message)
    before messages ->
  percent value = Raises e ->
  create_action s
    (fun action =>
       for_each (before ++ CallSetProgress value :: after)
         (call_handle action)) w
  = (Raises e,
     extend w (ShowMsg (s +:+ "...") (Some (-1))
               :: messages ++ [ShowMsg (s +:+ "...error") None])).
Proof.
  intros Hbefore Hvalue. rewrite create_action_run, for_each_app.
  unfold bind at 1. rewrite (call_handle_loop _ _ _ _ Hbefore).
  cbn [for_each]. unfold bind at 1.
  rewrite call_handle_run. cbn [handle_message]. rewrite Hvalue.
  rewrite (percent_raises_Exception _ _ Hvalue).
  by rewrite !extend_extend.
Qed.

Lemma create_action_bad_progress_witness :
  create_action "X"
    (fun action =>
       for_each ([CallSetProgress (PyFloat 0.5)]
                 ++ CallSetProgress (PyFloat nan) :: [CallFailed])
         (call_handle action)) Sample.w0
  = (Raises (ExceptionInstance "ValueError"),
     extend Sample.w0
       [ShowMsg "X..." (Some (-1)); ShowMsg "X...50%" (Some (-1));
        ShowMsg "X...error" None]).
Proof.
  apply (create_action_bad_progress "X" [CallSetProgress (PyFloat 0.5)]
           [CallFailed] [ShowMsg "X...50%" (Some (-1))] (PyFloat nan)).
  - repeat constructor.
  - reflexivity.
Defined.

(** The percentage is computed in binary64 (0.29, the float nearest to
    it, gives 28), it is not clamped, and it is cut towards zero. *)
Example percent_floats :
  percent (PyFloat 0x1.28f5c28f5c28fp-2) = Returns 28 /\
  percent (PyFloat 1.5) = Returns 150 /\
  percent (PyFloat (-0.0078125)) = Returns 0 /\
  percent (PyInt 2) = Returns 200 /\
  percent (PyFloat infinity) = Raises (ExceptionInstance "OverflowError").
Proof. repeat split; reflexivity. Qed.

(** ** More on closing, fetching and start-up *)



(** X5: [closeEvent] never lets an instance of [Exception] escape and
    never assigns an attribute of the shell; it requests termination
    exactly when it returns, as its last call, and when it raises instead
    no termination has been requested. *)
Theorem closeEvent_escapes env event w :
  exists evs,
    snd (closeEvent env event w) = extend w evs /\
    match fst (closeEvent env event w) with
    | Returns _ => last evs = Some AppQuit
    | Raises e => isinstance_Exception e = false /\ AppQuit ∉ evs
    end.
Proof.
  rewrite closeEvent_run.
  destruct (player_stop_raises env) as [e1|].
  - destruct (isinstance_Exception e1) eqn:He; cbn [fst snd];
      eexists; (split; [reflexivity|]); [done|]. split; [done|list_mem].
  - destruct (player_shutdown_raises env) as [e2|];
      [destruct (isinstance_Exception e2) eqn:He|]; cbn [fst snd];
      eexists; (split; [reflexivity|]); try done. split; [done|list_mem].
Qed.

(** X6: whenever [pixmap_from_url] returns, it has made exactly one
    request; a pixmap it returns, and a pixmap it handed to the callback,
    is not null, and when it returns [None] it has made no other call. *)
Theorem pixmap_from_url_never_null env url callback w res w' :
  pixmap_from_url env url callback w = (Returns res, w') ->
  exists rest,
    w' = extend w (RequestGet url (size_param env) :: rest) /\
    match res with
    | Some pixmap =>
        isNull pixmap = false /\
        rest = match callback with
               | Some cb => [CallbackCall cb pixmap]
               | None => []
               end
    | None => rest = []
    end.
Proof.
  rewrite pixmap_from_url_run.
  destruct (request_get env url (size_param env)) as [content|].
  - cbv zeta. destruct (isNull (loadFromData env content)) eqn:Hnull;
      intros [= <- <-]; by eexists.
  - intros [= <- <-]. by eexists.
Qed.

Lemma pixmap_from_url_never_null_witness :
  exists rest,
    mkWorld [RequestGet "http://img/cover.png" [("param", "1000y1000")];
             CallbackCall "show_cover" (Pixmap Sample.png)] 50 None
    = extend Sample.w0
        (RequestGet "http://img/cover.png" (size_param Sample.quiet) :: rest) /\
    isNull (Pixmap Sample.png) = false /\
    rest = [CallbackCall "show_cover" (Pixmap Sample.png)].
Proof.
  exact (pixmap_from_url_never_null Sample.quiet "http://img/cover.png"
           (Some "show_cover") Sample.w0 (Some (Pixmap Sample.png)) _
           eq_refl).
Defined.

(** X7: [initialize] logs its start and emits the initialized
    notification, once, before anything else.  Without the mac theme it
    then logs its end and returns; under the mac theme with a readable
    [mac.qss] it reads the file, installs its content, logs its end and
    returns; under the mac theme with a [mac.qss] that cannot be read it
    raises what [open] raised, having installed nothing and without
    logging its end. *)
Theorem initialize_run env w :
  let qssfilepath :=
    PosixPath.join (PosixPath.dirname (module_abspath env)) "mac.qss" in
  let started := [LogDebug "App start initializing..."; InitializedEmit] in
  let done := LogDebug "App start initializing...done" in
  (use_mac_theme env = false ->
   initialize env w = (Returns tt, extend w (started ++ [done]))) /\
  (forall qss,
     use_mac_theme env = true ->
     file_content (fs env) qssfilepath = Returns qss ->
     initialize env w
     = (Returns tt,
        extend w (started
                  ++ [FileRead qssfilepath; SetStyleSheet qss; done]))) /\
  (forall e,
     use_mac_theme env = true ->
     file_content (fs env) qssfilepath = Raises e ->
     initialize env w
     = (Raises e, extend w (started ++ [FileRead qssfilepath]))).
Proof.
  cbv zeta. unfold initialize. rewrite !run_emit_bind, extend_extend.
  unfold bind. rewrite load_qss_run. cbv zeta. cbn [app].
  split; [|split].
  - intros ->. unfold emit. by rewrite extend_extend.
  - intros qss -> ->. unfold emit. by rewrite !extend_extend.
  - intros e -> ->. by rewrite extend_extend.
Qed.

Lemma initialize_run_witness :
  initialize Sample.quiet Sample.w0
  = (Returns tt,
     mkWorld [LogDebug "App start initializing..."; InitializedEmit;
              LogDebug "App start initializing...done"] 50 None) /\
  initialize Sample.mac Sample.w0
  = (Returns tt,
     mkWorld [LogDebug "App start initializing..."; InitializedEmit;
              FileRead "/opt/feeluown/mac.qss";
              SetStyleSheet "QWidget { color: white; }";
              LogDebug "App start initializing...done"] 50 None) /\
  initialize Sample.mac_without_qss Sample.w0
  = (Raises (ExceptionInstance "FileNotFoundError"),
     mkWorld [LogDebug "App start initializing..."; InitializedEmit;
              FileRead "/a/mac.qss"] 50 None).
Proof.
  split; [|split].
  - exact (proj1 (initialize_run Sample.quiet Sample.w0) eq_refl).
  - exact (proj1 (proj2 (initialize_run Sample.mac Sample.w0))
             _ eq_refl eq_refl).
  - exact (proj2 (proj2 (initialize_run Sample.mac_without_qss Sample.w0))
             _ eq_refl eq_refl).
Defined.

(** X8: the file [load_qss] reads is always named [mac.qss] and lies in
    the directory of the module file, whatever the path of the module. *)
Theorem load_qss_reads_beside_module env w evs path :
  load_qss env w = (Returns tt, extend w evs) ->
  FileRead path ∈ evs ->
  PosixPath.basename path = "mac.qss" /\
  PosixPath.dirname path = PosixPath.dirname (module_abspath env).
Proof.
  rewrite load_qss_run. cbv zeta. destruct (use_mac_theme env).
  - destruct (file_content _ _) as [qss|e]; [|discriminate].
    intros Hrun Hin. injection Hrun as Hevs. apply app_inv_head in Hevs.
    subst evs. apply elem_of_cons in Hin as [Heq|Hin]; [|list_mem].
    injection Heq as ->. split.
    + by apply basename_join.
    + apply dirname_join; [apply dirname_shape|done].
  - intros Hrun Hin. injection Hrun as Hevs.
    apply extend_same in Hevs. subst evs. list_mem.
Qed.

Lemma load_qss_reads_beside_module_witness :
  PosixPath.basename "/opt/feeluown/mac.qss" = "mac.qss" /\
  PosixPath.dirname "/opt/feeluown/mac.qss"
  = PosixPath.dirname (module_abspath Sample.mac).
Proof.
  apply (load_qss_reads_beside_module Sample.mac Sample.w0
           [FileRead "/opt/feeluown/mac.qss";
            SetStyleSheet "QWidget { color: white; }"]).
  - reflexivity.
  - by left.
Defined.

(** ** More on the scan *)



(** What the second loop recognizes, as a function of [f_list]. *)
Lemma scan_recognized_omap env :
  scan_recognized env
  = omap (fun fpath =>
            let basename := PosixPath.basename fpath in
            if PyStr.endswith basename ".fuo"
            then Some (fpath, PyStr.rsplit1_head "." basename)
            else None) (scan_f_list env (config_FUO_FILES env)).
Proof.
  unfold scan_recognized, scan_fuo_files_with. by rewrite recognizing_loop.
Qed.

Lemma scan_recognized_pair env fpath name :
  (fpath, name) ∈ scan_recognized env
  <-> fpath ∈ scan_f_list env (config_FUO_FILES env) /\
      PyStr.endswith (PosixPath.basename fpath) ".fuo" = true /\
      name = PyStr.rsplit1_head "." (PosixPath.basename fpath).
Proof.
  rewrite scan_recognized_omap, list_elem_of_omap. cbv zeta. split.
  - intros (p & Hin & Hsome).
    destruct (PyStr.endswith (PosixPath.basename p) ".fuo") eqn:Hend; [|done].
    by injection Hsome as <- <-.
  - intros (Hin & Hend & ->). exists fpath. by rewrite Hend.
Qed.

(** X9: the name the scan derives for a recognized file is its basename
    without the four characters [.fuo]: putting the extension back gives
    the basename; the name holds no slash. *)
Theorem scan_name_roundtrip env fpath name :
  (fpath, name) ∈ scan_recognized env ->
  name +:+ ".fuo" = PosixPath.basename fpath /\
  PyStr.rfind PosixPath.sep name = -1.
Proof.
  intros (_ & Hend & ->)%scan_recognized_pair.
  pose proof (fuo_name_roundtrip _ Hend) as Hround. split; [done|].
  pose proof (basename_no_sep fpath) as Hsep. rewrite <- Hround in Hsep.
  by apply rfind_app_none in Hsep as [? _].
Qed.

Lemma scan_name_roundtrip_witness :
  "c" +:+ ".fuo" = PosixPath.basename "/dir/c.fuo" /\
  PyStr.rfind PosixPath.sep "c" = -1.
Proof.
  apply (scan_name_roundtrip Sample.quiet "/dir/c.fuo" "c").
  apply list_elem_of_In. simpl. right. by left.
Defined.


Example scan_recognized_twice :
  scan_recognized (with_FUO_FILES Sample.quiet ["/a/b.fuo"; "/a"])
  = [("/a/b.fuo", "b"); ("/a/b.fuo", "b")].
Proof. reflexivity. Qed.



(** X12: when none of the configured paths exists, the empty
    configuration among them, the scan recognizes nothing. *)
Theorem scan_nothing_exists env :
  (forall filepath,
     filepath ∈ config_FUO_FILES env ->
     os_path_exists (fs env) filepath = false) ->
  scan_recognized env = [].
Proof.
  intros Hmissing. rewrite scan_recognized_omap.
  destruct (scan_f_list env (config_FUO_FILES env)) as [|p l] eqn:Hl; [done|].
  assert (Hin : p ∈ scan_f_list env (config_FUO_FILES env))
    by (rewrite Hl; by left).
  apply scan_f_list_elem in Hin as (filepath & Hcfg & Hex & _).
  rewrite (Hmissing _ Hcfg) in Hex. discriminate Hex.
Qed.

Lemma scan_nothing_exists_witness :
  scan_recognized (with_FUO_FILES Sample.quiet ["/missing"; "/gone/x.fuo"])
  = [].
Proof.
  apply scan_nothing_exists. intros filepath Hin.
  apply list_elem_of_In in Hin. simpl in Hin.
  destruct Hin as [<-|[<-|[]]]; reflexivity.
Defined.

(** X13: the second loop keeps the order of [f_list] and invents
    nothing: the recognized paths are a subsequence of it. *)
Theorem scan_recognized_sublist env :
  (scan_recognized env).*1 `sublist_of` scan_f_list env (config_FUO_FILES env).
Proof.
  rewrite scan_recognized_omap.
  induction (scan_f_list env (config_FUO_FILES env)) as [|p l IH];
    [constructor|].
  cbn [omap list_omap]. cbv zeta.
  destruct (PyStr.endswith (PosixPath.basename p) ".fuo").
  - cbn [fmap list_fmap fst]. by constructor.
  - by constructor.
Qed.


